(** * Hardware-intrinsic metadata of the JIT: [src/coreclr/src/jit/hwintrinsic.h]

    A shallow embedding of [struct HWIntrinsicInfo], its flag and category
    enumerations, the member and flag lookups defined in the header, and the
    comparison-predicate table, together with the properties the
    specification states about them.

    The header only declares [lookup], [lookupImmUpperBound], [isInImmRange],
    [lookupSimdSize(comp, id, sig)] and
    [lookupFloatingComparisonForSwappedArgs]; their bodies, the registry
    table and the enumerations [NamedIntrinsic], [var_types] and
    [instruction] live in other files.  Whatever is embedded without a body
    in the header is marked "Modelled from the spec". *)

From Stdlib Require Import ZArith List String Bool Lia.
Import ListNotations.
Local Open Scope Z_scope.

(** ** Outcomes of a call

    A call either returns, or trips an assertion (compilation of the current
    method halts), or reads an array outside its bounds. *)

Inductive result (A : Type) : Type :=
| Ok (a : A)
| AssertFailed (msg : string)
| OutOfBounds.

Arguments Ok {A} a.
Arguments AssertFailed {A} msg.
Arguments OutOfBounds {A}.

Definition bind {A B : Type} (c : result A) (k : A -> result B) : result B :=
  match c with
  | Ok a => k a
  | AssertFailed msg => AssertFailed msg
  | OutOfBounds => OutOfBounds
  end.

Notation "x <- c ;; k" := (bind c (fun x => k))
  (at level 61, c at next level, right associativity).

(** [assert(cond)]: the check exists in checked (DEBUG) builds only; a
    release build compiles the macro away and execution continues with the
    next statement. *)
Definition assert_ (DEBUG : bool) (cond : bool) (msg : string) : result unit :=
  if DEBUG && negb cond then AssertFailed msg else Ok tt.

(** A violation the specification declares fatal whatever the build. *)
Definition require (cond : bool) (msg : string) : result unit :=
  if cond then Ok tt else AssertFailed msg.

(** ** Enumerations *)

Inductive Target : Type := TARGET_XARCH | TARGET_ARM64.

Inductive HWIntrinsicCategory : Type :=
| HW_Category_SimpleSIMD
| HW_Category_IMM
| HW_Category_Scalar
| HW_Category_SIMDScalar
| HW_Category_MemoryLoad
| HW_Category_MemoryStore
| HW_Category_Helper
| HW_Category_Special.

Definition category_eqb (a b : HWIntrinsicCategory) : bool :=
  match a, b with
  | HW_Category_SimpleSIMD, HW_Category_SimpleSIMD
  | HW_Category_IMM, HW_Category_IMM
  | HW_Category_Scalar, HW_Category_Scalar
  | HW_Category_SIMDScalar, HW_Category_SIMDScalar
  | HW_Category_MemoryLoad, HW_Category_MemoryLoad
  | HW_Category_MemoryStore, HW_Category_MemoryStore
  | HW_Category_Helper, HW_Category_Helper
  | HW_Category_Special, HW_Category_Special => true
  | _, _ => false
  end.

(** [enum HWIntrinsicFlag : unsigned int]: a bit mask. *)
Definition HWIntrinsicFlag : Type := Z.

Definition HW_Flag_NoFlag : HWIntrinsicFlag := 0.
Definition HW_Flag_Commutative : HWIntrinsicFlag := 0x1.
Definition HW_Flag_FullRangeIMM : HWIntrinsicFlag := 0x2.
Definition HW_Flag_NoCodeGen : HWIntrinsicFlag := 0x8.
Definition HW_Flag_UnfixedSIMDSize : HWIntrinsicFlag := 0x10.
Definition HW_Flag_MultiIns : HWIntrinsicFlag := 0x20.
Definition HW_Flag_NoContainment : HWIntrinsicFlag := 0x40.
Definition HW_Flag_CopyUpperBits : HWIntrinsicFlag := 0x80.
Definition HW_Flag_BaseTypeFromFirstArg : HWIntrinsicFlag := 0x100.
Definition HW_Flag_NoFloatingPointUsed : HWIntrinsicFlag := 0x200.
Definition HW_Flag_MaybeIMM : HWIntrinsicFlag := 0x400.
Definition HW_Flag_NoJmpTableIMM : HWIntrinsicFlag := 0x800.
Definition HW_Flag_BaseTypeFromSecondArg : HWIntrinsicFlag := 0x1000.
Definition HW_Flag_SpecialCodeGen : HWIntrinsicFlag := 0x2000.
(* TARGET_XARCH *)
Definition HW_Flag_NoRMWSemantics : HWIntrinsicFlag := 0x4000.
(* TARGET_ARM64 *)
Definition HW_Flag_HasRMWSemantics : HWIntrinsicFlag := 0x4000.
Definition HW_Flag_SpecialImport : HWIntrinsicFlag := 0x8000.
Definition HW_Flag_MaybeMemoryLoad : HWIntrinsicFlag := 0x10000.
Definition HW_Flag_MaybeMemoryStore : HWIntrinsicFlag := 0x20000.

(** Membership of a single-bit flag in a flag set, read off the binary
    representation rather than through the mask test the code uses. *)
Definition has_flag (flags flag : HWIntrinsicFlag) : bool :=
  Z.testbit flags (Z.log2 flag).

(** A flag that is one bit of the mask. *)
Definition single_bit (flag : HWIntrinsicFlag) : Prop :=
  0 < flag /\ flag = 2 ^ Z.log2 flag.

Ltac single_bit_flag := split; [reflexivity | reflexivity].

(** Modelled from the spec: the identifier enumeration [NamedIntrinsic]
    (namedintrinsiclist.h is not part of the sources): a dense enumeration
    with one reserved none/illegal value distinct from every valid
    identifier. *)
Definition NamedIntrinsic : Type := Z.
Definition NI_Illegal : NamedIntrinsic := 0.

(** Modelled from the spec: the hardware-feature tag [CORINFO_InstructionSet]
    (declared outside the sources); it carries identity only. *)
Definition CORINFO_InstructionSet : Type := Z.

(** Modelled from the spec: the opcode enumeration [instruction] (instr.h is
    not part of the sources): a concrete opcode or the explicit "unsupported"
    sentinel [INS_invalid]. *)
Inductive instruction : Type :=
| INS_invalid
| INS_opcode (code : positive).

(** [var_types]: the element types, an ordered enumeration (typelist.h is not
    part of the sources; [TYP_BYTE] and [TYP_DOUBLE] are taken as parameters
    below). *)
Definition var_types : Type := Z.

(** ** The record *)

(** [instruction ins[10]]: an array of exactly ten slots. *)
Record instruction_array : Type := mk_instruction_array {
  slots : list instruction;
  slots_length : List.length slots = 10%nat
}.

(** [a[i]]: a read outside the ten slots has no defined value. *)
Definition array_get (a : instruction_array) (i : Z) : result instruction :=
  if i <? 0 then OutOfBounds
  else match nth_error (slots a) (Z.to_nat i) with
       | Some x => Ok x
       | None => OutOfBounds
       end.

Record HWIntrinsicInfo : Type := mk_HWIntrinsicInfo {
  id : NamedIntrinsic;
  name : string;
  isa : CORINFO_InstructionSet;
  ival : Z;
  simdSize : Z;
  numArgs : Z;
  ins : instruction_array;
  category : HWIntrinsicCategory;
  flags : HWIntrinsicFlag
}.

(** Modelled from the spec: the compilation context [Compiler] and the
    signature [CORINFO_SIG_INFO] (compiler.h and corinfo.h are not part of
    the sources), reduced to what the width of a size-polymorphic intrinsic
    is derived from: the signature's generic vector type argument, a 128-bit
    or a 256-bit vector of some element type. *)
Definition Compiler : Type := unit.

Inductive SimdTypeArg : Type :=
| Vector128 (baseType : var_types)
| Vector256 (baseType : var_types).

Record CORINFO_SIG_INFO : Type := mk_CORINFO_SIG_INFO {
  sigTypeArg : SimdTypeArg
}.

Definition simdTypeArgWidth (t : SimdTypeArg) : Z :=
  match t with
  | Vector128 _ => 128
  | Vector256 _ => 256
  end.

(** ** The registry and the member lookups *)

Section Registry.

(** Modelled from the spec: the registry table (built from
    hwintrinsiclistxarch.h or hwintrinsiclistarm64.h, which are not part of
    the sources): the ordered collection of records, indexed by
    identifier. *)
Variable hwIntrinsicInfoArray : list HWIntrinsicInfo.

(** Modelled from the spec: the end of the identifier enumeration; the
    valid identifiers are the values strictly between [NI_Illegal] and
    [NI_HW_INTRINSIC_END]. *)
Definition NI_HW_INTRINSIC_END : NamedIntrinsic :=
  Z.of_nat (List.length hwIntrinsicInfoArray) + 1.

(** Modelled from the spec: the body of [lookup] (hwintrinsic.cpp is not
    part of the sources): a total function over the valid identifiers,
    retrieving the record at the identifier's position; the none sentinel
    and every value outside the domain are fatal. *)
Definition lookup (id : NamedIntrinsic) : result HWIntrinsicInfo :=
  _ <- require (negb (id =? NI_Illegal)) "lookup: the none sentinel" ;;
  _ <- require ((NI_Illegal <? id) && (id <? NI_HW_INTRINSIC_END))
               "lookup: outside the identifier domain" ;;
  match nth_error hwIntrinsicInfoArray (Z.to_nat (id - NI_Illegal - 1)) with
  | Some r => Ok r
  | None => OutOfBounds
  end.

(** *** Member lookup *)

Definition lookupId (id : NamedIntrinsic) : result NamedIntrinsic :=
  r <- lookup id ;; Ok (let '{| id := the_id |} := r in the_id).

Definition lookupName (id : NamedIntrinsic) : result string :=
  r <- lookup id ;; Ok r.(name).

Definition lookupIsa (id : NamedIntrinsic) : result CORINFO_InstructionSet :=
  r <- lookup id ;; Ok r.(isa).

Definition lookupIval (id : NamedIntrinsic) : result Z :=
  r <- lookup id ;; Ok r.(ival).

Definition lookupSimdSize (id : NamedIntrinsic) : result Z :=
  r <- lookup id ;; Ok r.(simdSize).

Definition lookupNumArgs (id : NamedIntrinsic) : result Z :=
  r <- lookup id ;; Ok r.(numArgs).

Section ElementTypes.

(** The ends of the element-type range the [ins] array is indexed by. *)
Variables TYP_BYTE TYP_DOUBLE : var_types.

(** Whether the build has its assertions compiled in. *)
Variable DEBUG : bool.

Definition lookupIns (id : NamedIntrinsic) (type : var_types)
  : result instruction :=
  if (type <? TYP_BYTE) || (type >? TYP_DOUBLE) then
    _ <- assert_ DEBUG false "Unexpected type" ;;
    Ok INS_invalid
  else
    r <- lookup id ;; array_get r.(ins) (type - TYP_BYTE).

End ElementTypes.

Definition lookupCategory (id : NamedIntrinsic) : result HWIntrinsicCategory :=
  r <- lookup id ;; Ok r.(category).

Definition lookupFlags (id : NamedIntrinsic) : result HWIntrinsicFlag :=
  r <- lookup id ;; Ok r.(flags).

(** *** Flags lookup *)

Definition IsCommutative (id : NamedIntrinsic) : result bool :=
  flags <- lookupFlags id ;;
  Ok (negb (Z.land flags HW_Flag_Commutative =? 0)).

Definition HasFullRangeImm (id : NamedIntrinsic) : result bool :=
  flags <- lookupFlags id ;;
  Ok (negb (Z.land flags HW_Flag_FullRangeIMM =? 0)).

Definition RequiresCodegen (id : NamedIntrinsic) : result bool :=
  flags <- lookupFlags id ;;
  Ok (Z.land flags HW_Flag_NoCodeGen =? 0).

Definition HasFixedSimdSize (id : NamedIntrinsic) : result bool :=
  flags <- lookupFlags id ;;
  Ok (Z.land flags HW_Flag_UnfixedSIMDSize =? 0).

Definition GeneratesMultipleIns (id : NamedIntrinsic) : result bool :=
  flags <- lookupFlags id ;;
  Ok (negb (Z.land flags HW_Flag_MultiIns =? 0)).

Definition SupportsContainment (id : NamedIntrinsic) : result bool :=
  flags <- lookupFlags id ;;
  Ok (Z.land flags HW_Flag_NoContainment =? 0).

Definition CopiesUpperBits (id : NamedIntrinsic) : result bool :=
  flags <- lookupFlags id ;;
  Ok (negb (Z.land flags HW_Flag_CopyUpperBits =? 0)).

Definition BaseTypeFromFirstArg (id : NamedIntrinsic) : result bool :=
  flags <- lookupFlags id ;;
  Ok (negb (Z.land flags HW_Flag_BaseTypeFromFirstArg =? 0)).

Definition IsFloatingPointUsed (id : NamedIntrinsic) : result bool :=
  flags <- lookupFlags id ;;
  Ok (Z.land flags HW_Flag_NoFloatingPointUsed =? 0).

Definition MaybeImm (id : NamedIntrinsic) : result bool :=
  flags <- lookupFlags id ;;
  Ok (negb (Z.land flags HW_Flag_MaybeIMM =? 0)).

Definition MaybeMemoryLoad (id : NamedIntrinsic) : result bool :=
  flags <- lookupFlags id ;;
  Ok (negb (Z.land flags HW_Flag_MaybeMemoryLoad =? 0)).

Definition MaybeMemoryStore (id : NamedIntrinsic) : result bool :=
  flags <- lookupFlags id ;;
  Ok (negb (Z.land flags HW_Flag_MaybeMemoryStore =? 0)).

Definition NoJmpTableImm (id : NamedIntrinsic) : result bool :=
  flags <- lookupFlags id ;;
  Ok (negb (Z.land flags HW_Flag_NoJmpTableIMM =? 0)).

Definition BaseTypeFromSecondArg (id : NamedIntrinsic) : result bool :=
  flags <- lookupFlags id ;;
  Ok (negb (Z.land flags HW_Flag_BaseTypeFromSecondArg =? 0)).

Definition HasSpecialCodegen (id : NamedIntrinsic) : result bool :=
  flags <- lookupFlags id ;;
  Ok (negb (Z.land flags HW_Flag_SpecialCodeGen =? 0)).

(** The body is selected by the target the JIT is built for. *)
Definition HasRMWSemantics (target : Target) (id : NamedIntrinsic)
  : result bool :=
  flags <- lookupFlags id ;;
  match target with
  | TARGET_XARCH => Ok (Z.land flags HW_Flag_NoRMWSemantics =? 0)
  | TARGET_ARM64 => Ok (negb (Z.land flags HW_Flag_HasRMWSemantics =? 0))
  end.

Definition HasSpecialImport (id : NamedIntrinsic) : result bool :=
  flags <- lookupFlags id ;;
  Ok (negb (Z.land flags HW_Flag_SpecialImport =? 0)).

(** *** Call-site refinements (declared in the header, defined elsewhere) *)

(** Modelled from the spec: the intrinsic-specific immediate bound of an
    intrinsic whose immediate is not legal on the whole byte range (the
    per-intrinsic cases of hwintrinsicxarch.cpp are not part of the
    sources). *)
Variable narrowImmBound : NamedIntrinsic -> Z.

(** Modelled from the spec: the body of [lookupImmUpperBound]: the maximum
    legal immediate of an immediate-category intrinsic, 255 when the
    immediate is legal on the full range and the intrinsic-specific bound
    otherwise; on an identifier of another category the call is fatal. *)
Definition lookupImmUpperBound (id : NamedIntrinsic) : result Z :=
  cat <- lookupCategory id ;;
  _ <- require (category_eqb cat HW_Category_IMM)
               "lookupImmUpperBound: not an immediate-category intrinsic" ;;
  full <- HasFullRangeImm id ;;
  if full then Ok 255 else Ok (narrowImmBound id).

(** Modelled from the spec: the body of [isInImmRange]: the full-range flag
    legalizes the entire byte range 0-255; otherwise the value is checked
    against the narrower, intrinsic-specific bound. *)
Definition isInImmRange (id : NamedIntrinsic) (ival : Z) : result bool :=
  full <- HasFullRangeImm id ;;
  if full then Ok ((0 <=? ival) && (ival <=? 255))
  else
    bound <- lookupImmUpperBound id ;;
    Ok ((0 <=? ival) && (ival <=? bound)).

(** Modelled from the spec: the body of [lookupSimdSize(comp, id, sig)]:
    a fixed-size intrinsic returns the table value unchanged, a
    size-polymorphic one the width of the signature's type argument. *)
Definition lookupSimdSize_sig (comp : Compiler) (id : NamedIntrinsic)
           (sig : CORINFO_SIG_INFO) : result Z :=
  fixed <- HasFixedSimdSize id ;;
  if fixed then lookupSimdSize id
  else Ok (simdTypeArgWidth sig.(sigTypeArg)).

End Registry.

(** ** The comparison predicate table (TARGET_XARCH) *)

Inductive FloatComparison : Type :=
| _CMP_EQ_OQ | _CMP_LT_OS | _CMP_LE_OS | _CMP_UNORD_Q
| _CMP_NEQ_UQ | _CMP_NLT_US | _CMP_NLE_US | _CMP_ORD_Q
| _CMP_EQ_UQ | _CMP_NGE_US | _CMP_NGT_US | _CMP_FALSE_OQ
| _CMP_NEQ_OQ | _CMP_GE_OS | _CMP_GT_OS | _CMP_TRUE_UQ
| _CMP_EQ_OS | _CMP_LT_OQ | _CMP_LE_OQ | _CMP_UNORD_S
| _CMP_NEQ_US | _CMP_NLT_UQ | _CMP_NLE_UQ | _CMP_ORD_S
| _CMP_EQ_US | _CMP_NGE_UQ | _CMP_NGT_UQ | _CMP_FALSE_OS
| _CMP_NEQ_OS | _CMP_GE_OQ | _CMP_GT_OQ | _CMP_TRUE_US.

(** The value each macro expands to. *)
Definition cmp_code (c : FloatComparison) : Z :=
  match c with
  | _CMP_EQ_OQ => 0x00 | _CMP_LT_OS => 0x01 | _CMP_LE_OS => 0x02
  | _CMP_UNORD_Q => 0x03 | _CMP_NEQ_UQ => 0x04 | _CMP_NLT_US => 0x05
  | _CMP_NLE_US => 0x06 | _CMP_ORD_Q => 0x07 | _CMP_EQ_UQ => 0x08
  | _CMP_NGE_US => 0x09 | _CMP_NGT_US => 0x0A | _CMP_FALSE_OQ => 0x0B
  | _CMP_NEQ_OQ => 0x0C | _CMP_GE_OS => 0x0D | _CMP_GT_OS => 0x0E
  | _CMP_TRUE_UQ => 0x0F | _CMP_EQ_OS => 0x10 | _CMP_LT_OQ => 0x11
  | _CMP_LE_OQ => 0x12 | _CMP_UNORD_S => 0x13 | _CMP_NEQ_US => 0x14
  | _CMP_NLT_UQ => 0x15 | _CMP_NLE_UQ => 0x16 | _CMP_ORD_S => 0x17
  | _CMP_EQ_US => 0x18 | _CMP_NGE_UQ => 0x19 | _CMP_NGT_UQ => 0x1A
  | _CMP_FALSE_OS => 0x1B | _CMP_NEQ_OS => 0x1C | _CMP_GE_OQ => 0x1D
  | _CMP_GT_OQ => 0x1E | _CMP_TRUE_US => 0x1F
  end.

Definition all_comparisons : list FloatComparison :=
  [ _CMP_EQ_OQ; _CMP_LT_OS; _CMP_LE_OS; _CMP_UNORD_Q;
    _CMP_NEQ_UQ; _CMP_NLT_US; _CMP_NLE_US; _CMP_ORD_Q;
    _CMP_EQ_UQ; _CMP_NGE_US; _CMP_NGT_US; _CMP_FALSE_OQ;
    _CMP_NEQ_OQ; _CMP_GE_OS; _CMP_GT_OS; _CMP_TRUE_UQ;
    _CMP_EQ_OS; _CMP_LT_OQ; _CMP_LE_OQ; _CMP_UNORD_S;
    _CMP_NEQ_US; _CMP_NLT_UQ; _CMP_NLE_UQ; _CMP_ORD_S;
    _CMP_EQ_US; _CMP_NGE_UQ; _CMP_NGT_UQ; _CMP_FALSE_OS;
    _CMP_NEQ_OS; _CMP_GE_OQ; _CMP_GT_OQ; _CMP_TRUE_US ].

(** The macro, if any, that expands to a given [int]. *)
Definition cmp_of_code (comparison : Z) : option FloatComparison :=
  find (fun c => cmp_code c =? comparison) all_comparisons.

(** What the table's comments say of each predicate: the relation it tests
    on ordered operands, its value when an operand is a NaN (the
    "ordered"/"unordered" attribute), and whether it signals. *)
Inductive Relation : Type :=
| REL_EQ | REL_LT | REL_LE | REL_GT | REL_GE
| REL_NEQ | REL_NLT | REL_NLE | REL_NGT | REL_NGE
| REL_ORD | REL_UNORD | REL_TRUE | REL_FALSE.

Record Meaning : Type := mk_Meaning {
  relation : Relation;
  onUnordered : bool;
  signaling : bool
}.

Definition cmp_meaning (c : FloatComparison) : Meaning :=
  match c with
  | _CMP_EQ_OQ => mk_Meaning REL_EQ false false
  | _CMP_LT_OS => mk_Meaning REL_LT false true
  | _CMP_LE_OS => mk_Meaning REL_LE false true
  | _CMP_UNORD_Q => mk_Meaning REL_UNORD true false
  | _CMP_NEQ_UQ => mk_Meaning REL_NEQ true false
  | _CMP_NLT_US => mk_Meaning REL_NLT true true
  | _CMP_NLE_US => mk_Meaning REL_NLE true true
  | _CMP_ORD_Q => mk_Meaning REL_ORD false false
  | _CMP_EQ_UQ => mk_Meaning REL_EQ true false
  | _CMP_NGE_US => mk_Meaning REL_NGE true true
  | _CMP_NGT_US => mk_Meaning REL_NGT true true
  | _CMP_FALSE_OQ => mk_Meaning REL_FALSE false false
  | _CMP_NEQ_OQ => mk_Meaning REL_NEQ false false
  | _CMP_GE_OS => mk_Meaning REL_GE false true
  | _CMP_GT_OS => mk_Meaning REL_GT false true
  | _CMP_TRUE_UQ => mk_Meaning REL_TRUE true false
  | _CMP_EQ_OS => mk_Meaning REL_EQ false true
  | _CMP_LT_OQ => mk_Meaning REL_LT false false
  | _CMP_LE_OQ => mk_Meaning REL_LE false false
  | _CMP_UNORD_S => mk_Meaning REL_UNORD true true
  | _CMP_NEQ_US => mk_Meaning REL_NEQ true true
  | _CMP_NLT_UQ => mk_Meaning REL_NLT true false
  | _CMP_NLE_UQ => mk_Meaning REL_NLE true false
  | _CMP_ORD_S => mk_Meaning REL_ORD false true
  | _CMP_EQ_US => mk_Meaning REL_EQ true true
  | _CMP_NGE_UQ => mk_Meaning REL_NGE true false
  | _CMP_NGT_UQ => mk_Meaning REL_NGT true false
  | _CMP_FALSE_OS => mk_Meaning REL_FALSE false true
  | _CMP_NEQ_OS => mk_Meaning REL_NEQ false true
  | _CMP_GE_OQ => mk_Meaning REL_GE false false
  | _CMP_GT_OQ => mk_Meaning REL_GT false false
  | _CMP_TRUE_US => mk_Meaning REL_TRUE true true
  end.

(** How the first operand of a comparison stands to the second. *)
Inductive Outcome : Type := Less | Equal | Greater | Unordered.

Definition relation_holds (r : Relation) (o : Outcome) : bool :=
  match r, o with
  | _, Unordered => false
  | REL_EQ, Equal => true
  | REL_LT, Less => true
  | REL_LE, (Less | Equal) => true
  | REL_GT, Greater => true
  | REL_GE, (Greater | Equal) => true
  | REL_NEQ, (Less | Greater) => true
  | REL_NLT, (Equal | Greater) => true
  | REL_NLE, Greater => true
  | REL_NGT, (Less | Equal) => true
  | REL_NGE, Less => true
  | REL_ORD, _ => true
  | REL_TRUE, _ => true
  | _, _ => false
  end.

Definition cmp_holds (c : FloatComparison) (o : Outcome) : bool :=
  match o with
  | Unordered => onUnordered (cmp_meaning c)
  | _ => relation_holds (relation (cmp_meaning c)) o
  end.

(** The outcome of the same comparison with its operands swapped. *)
Definition swap_operands (o : Outcome) : Outcome :=
  match o with
  | Less => Greater
  | Greater => Less
  | Equal => Equal
  | Unordered => Unordered
  end.

(** A predicate depends on the order of its operands when swapping them can
    change its value. *)
Definition order_dependent (c : FloatComparison) : bool :=
  negb (Bool.eqb (cmp_holds c Less) (cmp_holds c Greater)).

(** Modelled from the spec: the body of
    [lookupFloatingComparisonForSwappedArgs] (hwintrinsicxarch.cpp is not
    part of the sources): the predicate that preserves the comparison when
    the operand order is swapped; a predicate without an order-dependent
    counterpart is returned as it is. *)
Definition swapped_comparison (c : FloatComparison) : FloatComparison :=
  match c with
  | _CMP_LT_OS => _CMP_GT_OS
  | _CMP_LE_OS => _CMP_GE_OS
  | _CMP_NLT_US => _CMP_NGT_US
  | _CMP_NLE_US => _CMP_NGE_US
  | _CMP_NGE_US => _CMP_NLE_US
  | _CMP_NGT_US => _CMP_NLT_US
  | _CMP_GE_OS => _CMP_LE_OS
  | _CMP_GT_OS => _CMP_LT_OS
  | _CMP_LT_OQ => _CMP_GT_OQ
  | _CMP_LE_OQ => _CMP_GE_OQ
  | _CMP_NLT_UQ => _CMP_NGT_UQ
  | _CMP_NLE_UQ => _CMP_NGE_UQ
  | _CMP_NGE_UQ => _CMP_NLE_UQ
  | _CMP_NGT_UQ => _CMP_NLT_UQ
  | _CMP_GE_OQ => _CMP_LE_OQ
  | _CMP_GT_OQ => _CMP_LT_OQ
  | other => other
  end.

Definition lookupFloatingComparisonForSwappedArgs (comparison : Z) : result Z :=
  match cmp_of_code comparison with
  | Some c => Ok (cmp_code (swapped_comparison c))
  | None => AssertFailed "lookupFloatingComparisonForSwappedArgs: unreached"
  end.

(** ** A small registry to evaluate the lookups on *)

Definition no_instructions : instruction_array :=
  mk_instruction_array
    [INS_invalid; INS_invalid; INS_invalid; INS_invalid; INS_invalid;
     INS_invalid; INS_invalid; INS_invalid; INS_invalid; INS_invalid]
    eq_refl.

Definition float_instructions (single double : positive) : instruction_array :=
  mk_instruction_array
    [INS_invalid; INS_invalid; INS_invalid; INS_invalid; INS_invalid;
     INS_invalid; INS_invalid; INS_invalid; INS_opcode single; INS_opcode double]
    eq_refl.

Definition sample_registry : list HWIntrinsicInfo :=
  [ mk_HWIntrinsicInfo 1 "Add" 3 (-1) 16 2 (float_instructions 11 12)
      HW_Category_SimpleSIMD HW_Flag_Commutative;
    mk_HWIntrinsicInfo 2 "Shuffle" 3 (-1) 16 3 (float_instructions 21 22)
      HW_Category_IMM HW_Flag_FullRangeIMM;
    mk_HWIntrinsicInfo 3 "Compare" 5 (-1) 0 3 (float_instructions 31 32)
      HW_Category_IMM HW_Flag_UnfixedSIMDSize;
    mk_HWIntrinsicInfo 4 "Sqrt" 3 (-1) 16 1 (float_instructions 41 42)
      HW_Category_SimpleSIMD HW_Flag_NoFlag;
    mk_HWIntrinsicInfo 5 "StoreFence" 3 (-1) 0 0 no_instructions
      HW_Category_Special (Z.lor HW_Flag_NoContainment HW_Flag_NoRMWSemantics) ].

(** The intrinsic-specific bound of the sample registry: the comparison
    intrinsic takes one of the 32 predicates of the table above. *)
Definition sample_narrowImmBound (id : NamedIntrinsic) : Z :=
  if id =? 3 then 31 else 0.

(** ** The flag predicates and the bits they read *)

(** How a predicate tests its mask: [!= 0] or [== 0]. *)
Inductive Polarity : Type := TestsPresent | TestsAbsent.

Definition read_with (p : Polarity) (present : bool) : bool :=
  match p with
  | TestsPresent => present
  | TestsAbsent => negb present
  end.

Definition FlagPredicate : Type :=
  list HWIntrinsicInfo -> NamedIntrinsic -> result bool.

(** The flag lookups of the header, each with the flag it masks and the
    test it applies; the read/modify/write entry is the one the target
    selects. *)
Definition flag_predicates (target : Target)
  : list (HWIntrinsicFlag * Polarity * FlagPredicate) :=
  [ (HW_Flag_Commutative, TestsPresent, IsCommutative);
    (HW_Flag_FullRangeIMM, TestsPresent, HasFullRangeImm);
    (HW_Flag_NoCodeGen, TestsAbsent, RequiresCodegen);
    (HW_Flag_UnfixedSIMDSize, TestsAbsent, HasFixedSimdSize);
    (HW_Flag_MultiIns, TestsPresent, GeneratesMultipleIns);
    (HW_Flag_NoContainment, TestsAbsent, SupportsContainment);
    (HW_Flag_CopyUpperBits, TestsPresent, CopiesUpperBits);
    (HW_Flag_BaseTypeFromFirstArg, TestsPresent, BaseTypeFromFirstArg);
    (HW_Flag_NoFloatingPointUsed, TestsAbsent, IsFloatingPointUsed);
    (HW_Flag_MaybeIMM, TestsPresent, MaybeImm);
    (HW_Flag_MaybeMemoryLoad, TestsPresent, MaybeMemoryLoad);
    (HW_Flag_MaybeMemoryStore, TestsPresent, MaybeMemoryStore);
    (HW_Flag_NoJmpTableIMM, TestsPresent, NoJmpTableImm);
    (HW_Flag_BaseTypeFromSecondArg, TestsPresent, BaseTypeFromSecondArg);
    (HW_Flag_SpecialCodeGen, TestsPresent, HasSpecialCodegen);
    match target with
    | TARGET_XARCH =>
        (HW_Flag_NoRMWSemantics, TestsAbsent,
         fun table => HasRMWSemantics table TARGET_XARCH)
    | TARGET_ARM64 =>
        (HW_Flag_HasRMWSemantics, TestsPresent,
         fun table => HasRMWSemantics table TARGET_ARM64)
    end;
    (HW_Flag_SpecialImport, TestsPresent, HasSpecialImport) ].

(** The flags of the enumeration that a predicate reads. *)
Definition target_flags (target : Target) : list HWIntrinsicFlag :=
  map (fun entry => fst (fst entry)) (flag_predicates target).

(** A flag word written as the table rows write it: the flags of a list
    joined with [|], [HW_Flag_NoFlag] for the empty list. *)
Definition flag_word (fs : list HWIntrinsicFlag) : HWIntrinsicFlag :=
  fold_right Z.lor HW_Flag_NoFlag fs.

(** Whether a flag is among those joined. *)
Definition flag_listed (flag : HWIntrinsicFlag) (fs : list HWIntrinsicFlag)
  : bool :=
  existsb (Z.eqb flag) fs.

(** * Properties *)

(** ** Mask tests and flag membership *)

Lemma mask_test_bit (f k : Z) :
  0 <= k -> (Z.land f (2 ^ k) =? 0) = negb (Z.testbit f k).
Proof.
  intros Hk. destruct (Z.testbit f k) eqn:E; simpl.
  - apply Z.eqb_neq. intros H0.
    assert (Hbit : Z.testbit (Z.land f (2 ^ k)) k = true).
    { rewrite Z.land_spec, E, Z.pow2_bits_true by assumption. reflexivity. }
    rewrite H0, Z.bits_0 in Hbit. discriminate.
  - apply Z.eqb_eq. apply Z.bits_inj'. intros n Hn.
    rewrite Z.land_spec, Z.bits_0.
    destruct (Z.eq_dec n k) as [->|Hne].
    + rewrite E. reflexivity.
    + rewrite Z.pow2_bits_false by (intro; apply Hne; symmetry; assumption).
      apply andb_false_r.
Qed.

Lemma mask_test_has_flag (f flag : HWIntrinsicFlag) :
  single_bit flag -> (Z.land f flag =? 0) = negb (has_flag f flag).
Proof.
  intros [Hpos Hpow]. unfold has_flag.
  rewrite Hpow at 1. apply mask_test_bit. apply Z.log2_nonneg.
Qed.

Lemma has_flag_NoFlag (flag : HWIntrinsicFlag) :
  has_flag HW_Flag_NoFlag flag = false.
Proof. unfold has_flag, HW_Flag_NoFlag. apply Z.bits_0. Qed.

(** ** Lookups through a record that is in the registry *)

Section LookupFacts.

Variable table : list HWIntrinsicInfo.
Variable i : NamedIntrinsic.
Variable r : HWIntrinsicInfo.
Hypothesis found : lookup table i = Ok r.

Lemma lookupFlags_found : lookupFlags table i = Ok (flags r).
Proof. unfold lookupFlags. rewrite found. reflexivity. Qed.

Lemma lookupCategory_found : lookupCategory table i = Ok (category r).
Proof. unfold lookupCategory. rewrite found. reflexivity. Qed.

Lemma lookupSimdSize_found : lookupSimdSize table i = Ok (simdSize r).
Proof. unfold lookupSimdSize. rewrite found. reflexivity. Qed.

(** A predicate that tests its mask with [!= 0]. *)
Lemma present_test (flag : HWIntrinsicFlag) :
  single_bit flag ->
  (flags <- lookupFlags table i ;; Ok (negb (Z.land flags flag =? 0)))
  = Ok (has_flag (flags r) flag).
Proof.
  intros Hbit. rewrite lookupFlags_found. simpl.
  rewrite (mask_test_has_flag _ _ Hbit), negb_involutive. reflexivity.
Qed.

(** A predicate that tests its mask with [== 0]. *)
Lemma absent_test (flag : HWIntrinsicFlag) :
  single_bit flag ->
  (flags <- lookupFlags table i ;; Ok (Z.land flags flag =? 0))
  = Ok (negb (has_flag (flags r) flag)).
Proof.
  intros Hbit. rewrite lookupFlags_found. simpl.
  rewrite (mask_test_has_flag _ _ Hbit). reflexivity.
Qed.

End LookupFacts.

(** ** Read/modify/write polarity *)

(** C1: on the x86 family [HasRMWSemantics] is true exactly when the flag bit
    0x4000 (there [HW_Flag_NoRMWSemantics]) is absent from the record's flag
    set, on ARM64 exactly when the bit (there [HW_Flag_HasRMWSemantics]) is
    present; a record without the bit therefore reports true on the x86
    family and false on ARM64. *)
Theorem HasRMWSemantics_polarity
  (table : list HWIntrinsicInfo) (i : NamedIntrinsic) (r : HWIntrinsicInfo) :
  lookup table i = Ok r ->
  HasRMWSemantics table TARGET_XARCH i
    = Ok (negb (has_flag (flags r) HW_Flag_NoRMWSemantics)) /\
  HasRMWSemantics table TARGET_ARM64 i
    = Ok (has_flag (flags r) HW_Flag_HasRMWSemantics) /\
  (HasRMWSemantics table TARGET_XARCH i = Ok true
     <-> has_flag (flags r) 0x4000 = false) /\
  (HasRMWSemantics table TARGET_ARM64 i = Ok true
     <-> has_flag (flags r) 0x4000 = true) /\
  (has_flag (flags r) 0x4000 = false ->
     HasRMWSemantics table TARGET_XARCH i = Ok true /\
     HasRMWSemantics table TARGET_ARM64 i = Ok false).
Proof.
  intros found.
  assert (Hx : HasRMWSemantics table TARGET_XARCH i
               = Ok (negb (has_flag (flags r) HW_Flag_NoRMWSemantics))).
  { unfold HasRMWSemantics. rewrite (lookupFlags_found _ _ _ found). simpl.
    rewrite mask_test_has_flag by single_bit_flag. reflexivity. }
  assert (Ha : HasRMWSemantics table TARGET_ARM64 i
               = Ok (has_flag (flags r) HW_Flag_HasRMWSemantics)).
  { unfold HasRMWSemantics. rewrite (lookupFlags_found _ _ _ found). simpl.
    rewrite mask_test_has_flag, negb_involutive by single_bit_flag.
    reflexivity. }
  split; [exact Hx|]. split; [exact Ha|].
  rewrite Hx, Ha.
  change HW_Flag_NoRMWSemantics with 0x4000.
  change HW_Flag_HasRMWSemantics with 0x4000.
  destruct (has_flag (flags r) 0x4000); simpl;
    repeat split; intros; try reflexivity; try congruence.
Qed.

Lemma HasRMWSemantics_polarity_witness :
  HasRMWSemantics sample_registry TARGET_XARCH 4 = Ok true /\
  HasRMWSemantics sample_registry TARGET_ARM64 4 = Ok false.
Proof.
  destruct (HasRMWSemantics_polarity sample_registry 4 _ eq_refl)
    as (_ & _ & _ & _ & flagless).
  apply flagless. reflexivity.
Defined.

(** ** Predicates of negative polarity *)

(** C9: [RequiresCodegen], [HasFixedSimdSize], [SupportsContainment] and
    [IsFloatingPointUsed] are true exactly when their flag bit (no-codegen
    0x8, unfixed-SIMD-size 0x10, no-containment 0x40,
    no-floating-point-used 0x200) is absent; on a record with the empty flag
    set the four are true, and every predicate of a positively phrased flag
    (the ones testing their mask with [!= 0], [HasRMWSemantics] among them
    where its flag is [HW_Flag_HasRMWSemantics]) is false. *)
Theorem negative_polarity_predicates
  (table : list HWIntrinsicInfo) (i : NamedIntrinsic) (r : HWIntrinsicInfo) :
  lookup table i = Ok r ->
  (RequiresCodegen table i = Ok (negb (has_flag (flags r) 0x8)) /\
   HasFixedSimdSize table i = Ok (negb (has_flag (flags r) 0x10)) /\
   SupportsContainment table i = Ok (negb (has_flag (flags r) 0x40)) /\
   IsFloatingPointUsed table i = Ok (negb (has_flag (flags r) 0x200))) /\
  (HW_Flag_NoCodeGen = 0x8 /\ HW_Flag_UnfixedSIMDSize = 0x10 /\
   HW_Flag_NoContainment = 0x40 /\ HW_Flag_NoFloatingPointUsed = 0x200) /\
  (flags r = HW_Flag_NoFlag ->
   (RequiresCodegen table i = Ok true /\
    HasFixedSimdSize table i = Ok true /\
    SupportsContainment table i = Ok true /\
    IsFloatingPointUsed table i = Ok true) /\
   (IsCommutative table i = Ok false /\
    HasFullRangeImm table i = Ok false /\
    GeneratesMultipleIns table i = Ok false /\
    CopiesUpperBits table i = Ok false /\
    BaseTypeFromFirstArg table i = Ok false /\
    MaybeImm table i = Ok false /\
    MaybeMemoryLoad table i = Ok false /\
    MaybeMemoryStore table i = Ok false /\
    NoJmpTableImm table i = Ok false /\
    BaseTypeFromSecondArg table i = Ok false /\
    HasSpecialCodegen table i = Ok false /\
    HasRMWSemantics table TARGET_ARM64 i = Ok false /\
    HasSpecialImport table i = Ok false)).
Proof.
  intros found.
  assert (Hneg :
    RequiresCodegen table i = Ok (negb (has_flag (flags r) 0x8)) /\
    HasFixedSimdSize table i = Ok (negb (has_flag (flags r) 0x10)) /\
    SupportsContainment table i = Ok (negb (has_flag (flags r) 0x40)) /\
    IsFloatingPointUsed table i = Ok (negb (has_flag (flags r) 0x200))).
  { repeat split;
      [ unfold RequiresCodegen | unfold HasFixedSimdSize
      | unfold SupportsContainment | unfold IsFloatingPointUsed ];
      apply (absent_test _ _ _ found); single_bit_flag. }
  split; [exact Hneg|]. split; [repeat split|].
  intros Hempty. destruct Hneg as (Hc & Hs & Hn & Hf).
  rewrite Hc, Hs, Hn, Hf, Hempty, !has_flag_NoFlag.
  split; [repeat split|].
  pose proof (lookupFlags_found _ _ _ found) as Hflags.
  rewrite Hempty in Hflags.
  unfold IsCommutative, HasFullRangeImm, GeneratesMultipleIns, CopiesUpperBits,
    BaseTypeFromFirstArg, MaybeImm, MaybeMemoryLoad, MaybeMemoryStore,
    NoJmpTableImm, BaseTypeFromSecondArg, HasSpecialCodegen, HasRMWSemantics,
    HasSpecialImport.
  rewrite Hflags. repeat split.
Qed.

Lemma negative_polarity_predicates_witness :
  RequiresCodegen sample_registry 4 = Ok true /\
  HasFixedSimdSize sample_registry 3 = Ok false /\
  SupportsContainment sample_registry 5 = Ok false /\
  IsFloatingPointUsed sample_registry 4 = Ok true /\
  IsCommutative sample_registry 4 = Ok false.
Proof.
  destruct (negative_polarity_predicates sample_registry 4 _ eq_refl)
    as (_ & _ & empty).
  destruct (empty eq_refl) as ((Hc & _ & _ & Hf) & (Hcomm & _)).
  destruct (negative_polarity_predicates sample_registry 3 _ eq_refl)
    as ((_ & Hs & _) & _).
  destruct (negative_polarity_predicates sample_registry 5 _ eq_refl)
    as ((_ & _ & Hn & _) & _).
  exact (conj Hc (conj Hs (conj Hn (conj Hf Hcomm)))).
Defined.

(** ** The registry lookup *)

Lemma lookup_valid (table : list HWIntrinsicInfo) (i : NamedIntrinsic) :
  NI_Illegal < i < NI_HW_INTRINSIC_END table ->
  exists r,
    nth_error table (Z.to_nat (i - 1)) = Some r /\ lookup table i = Ok r.
Proof.
  unfold NI_Illegal, NI_HW_INTRINSIC_END. intros [Hlo Hhi].
  destruct (nth_error table (Z.to_nat (i - 1))) as [r|] eqn:Hnth.
  - exists r. split; [reflexivity|]. unfold lookup, require, NI_Illegal,
      NI_HW_INTRINSIC_END.
    replace (i =? 0) with false by (symmetry; apply Z.eqb_neq; lia).
    replace (0 <? i) with true by (symmetry; apply Z.ltb_lt; lia).
    replace (i <? Z.of_nat (List.length table) + 1) with true
      by (symmetry; apply Z.ltb_lt; lia).
    simpl. rewrite Z.sub_0_r, Hnth. reflexivity.
  - apply nth_error_None in Hnth. lia.
Qed.

Lemma lookup_invalid (table : list HWIntrinsicInfo) (i : NamedIntrinsic) :
  ~ (NI_Illegal < i < NI_HW_INTRINSIC_END table) ->
  exists msg, lookup table i = AssertFailed msg.
Proof.
  unfold NI_Illegal. intros Hout. unfold lookup, require, NI_Illegal.
  destruct (i =? 0) eqn:E0; simpl; [eexists; reflexivity|].
  destruct (0 <? i) eqn:E1; simpl; [|eexists; reflexivity].
  destruct (i <? NI_HW_INTRINSIC_END table) eqn:E2; simpl;
    [|eexists; reflexivity].
  apply Z.ltb_lt in E1, E2. lia.
Qed.

Lemma lookup_in_bounds (table : list HWIntrinsicInfo) (i : NamedIntrinsic) :
  lookup table i <> OutOfBounds.
Proof.
  destruct (Z.lt_ge_cases NI_Illegal i) as [Hlo|Hlo];
    [destruct (Z.lt_ge_cases i (NI_HW_INTRINSIC_END table)) as [Hhi|Hhi]|].
  - destruct (lookup_valid table i (conj Hlo Hhi)) as (r & _ & ->).
    discriminate.
  - destruct (lookup_invalid table i) as (msg & ->); [lia|discriminate].
  - destruct (lookup_invalid table i) as (msg & ->); [lia|discriminate].
Qed.

(** ** Instruction lookup *)

(** C2, as the specification puts it: outside the element-type range the
    call is fatal, whatever the build.  A release build refutes it: the
    assertion is compiled away and the sentinel [INS_invalid] is returned. *)
Lemma lookupIns_out_of_range_not_always_fatal :
  lookupIns sample_registry 3 12 false 1 0 = Ok INS_invalid /\
  ~ (forall table TYP_BYTE TYP_DOUBLE DEBUG i t,
        t < TYP_BYTE \/ t > TYP_DOUBLE ->
        exists msg,
          lookupIns table TYP_BYTE TYP_DOUBLE DEBUG i t = AssertFailed msg).
Proof.
  split; [reflexivity|]. intros Hfatal.
  destruct (Hfatal sample_registry 3 12 false 1 0) as (msg & Hmsg); [lia|].
  discriminate Hmsg.
Qed.

(** C2, amended: for an element type outside the range from [TYP_BYTE] to
    [TYP_DOUBLE] the registry is not consulted, whatever the identifier: a
    build with assertions halts on "Unexpected type", a build without them
    returns [INS_invalid]. *)
Theorem lookupIns_out_of_range
  (table : list HWIntrinsicInfo) (TYP_BYTE TYP_DOUBLE : var_types)
  (i : NamedIntrinsic) (t : var_types) :
  t < TYP_BYTE \/ t > TYP_DOUBLE ->
  lookupIns table TYP_BYTE TYP_DOUBLE true i t = AssertFailed "Unexpected type" /\
  lookupIns table TYP_BYTE TYP_DOUBLE false i t = Ok INS_invalid.
Proof.
  intros Hout. unfold lookupIns.
  assert (Htest : (t <? TYP_BYTE) || (t >? TYP_DOUBLE) = true).
  { apply orb_true_iff. destruct Hout as [Hlt|Hgt].
    - left. apply Z.ltb_lt. exact Hlt.
    - right. apply Z.gtb_lt. lia. }
  rewrite Htest. split; reflexivity.
Qed.

Lemma lookupIns_out_of_range_witness :
  (lookupIns sample_registry 3 12 true 1 13 = AssertFailed "Unexpected type" /\
   lookupIns sample_registry 3 12 false 1 13 = Ok INS_invalid) /\
  (lookupIns sample_registry 3 12 true 0 2 = AssertFailed "Unexpected type" /\
   lookupIns sample_registry 3 12 false 0 2 = Ok INS_invalid).
Proof.
  split.
  - apply (lookupIns_out_of_range sample_registry 3 12 1 13). right. lia.
  - apply (lookupIns_out_of_range sample_registry 3 12 0 2). left. lia.
Defined.

Lemma array_get_in_bounds (a : instruction_array) (k : Z) :
  0 <= k < 10 ->
  exists insn,
    nth_error (slots a) (Z.to_nat k) = Some insn /\ array_get a k = Ok insn.
Proof.
  intros Hk. unfold array_get.
  replace (k <? 0) with false by (symmetry; apply Z.ltb_ge; lia).
  destruct (nth_error (slots a) (Z.to_nat k)) as [insn|] eqn:Hnth.
  - exists insn. split; reflexivity.
  - apply nth_error_None in Hnth. pose proof (slots_length a). lia.
Qed.

(** C10: when the range from [TYP_BYTE] to [TYP_DOUBLE] counts no more than
    the ten element types the array has slots for, for every element type
    [t] inside it [lookupIns] returns the record's slot at ordinal
    [t - TYP_BYTE]; that ordinal lies within the ten slots, and the call
    reads outside no array, for any identifier. *)
Theorem lookupIns_in_range
  (table : list HWIntrinsicInfo) (TYP_BYTE TYP_DOUBLE : var_types)
  (DEBUG : bool) (i : NamedIntrinsic) (t : var_types) (r : HWIntrinsicInfo) :
  TYP_DOUBLE - TYP_BYTE < 10 ->
  TYP_BYTE <= t <= TYP_DOUBLE ->
  lookup table i = Ok r ->
  (0 <= t - TYP_BYTE < Z.of_nat (List.length (slots (ins r))) /\
   List.length (slots (ins r)) = 10%nat) /\
  (exists insn,
     nth_error (slots (ins r)) (Z.to_nat (t - TYP_BYTE)) = Some insn /\
     lookupIns table TYP_BYTE TYP_DOUBLE DEBUG i t = Ok insn) /\
  (forall j, lookupIns table TYP_BYTE TYP_DOUBLE DEBUG j t <> OutOfBounds).
Proof.
  intros Hspan Hin found.
  assert (Htest : (t <? TYP_BYTE) || (t >? TYP_DOUBLE) = false).
  { apply orb_false_iff. rewrite Z.gtb_ltb. split; apply Z.ltb_ge; lia. }
  split; [|split].
  - rewrite (slots_length (ins r)). split; [lia|reflexivity].
  - destruct (array_get_in_bounds (ins r) (t - TYP_BYTE)) as (insn & Hnth & Hget);
      [lia|].
    exists insn. split; [exact Hnth|].
    unfold lookupIns. rewrite Htest, found. exact Hget.
  - intros j. unfold lookupIns. rewrite Htest.
    destruct (lookup table j) as [rj|msg|] eqn:Hj; simpl.
    + destruct (array_get_in_bounds (ins rj) (t - TYP_BYTE)) as (insn & _ & ->);
        [lia|discriminate].
    + discriminate.
    + exfalso. exact (lookup_in_bounds table j Hj).
Qed.

Lemma lookupIns_in_range_witness :
  lookupIns sample_registry 3 12 true 1 11 = Ok (INS_opcode 11) /\
  lookupIns sample_registry 3 12 true 1 12 = Ok (INS_opcode 12) /\
  lookupIns sample_registry 3 12 true 1 3 = Ok INS_invalid.
Proof.
  assert (Hspan : 12 - 3 < 10) by lia.
  destruct (lookupIns_in_range sample_registry 3 12 true 1 11 _
              Hspan ltac:(lia) eq_refl) as (_ & (x & Hx & Hfloat) & _).
  destruct (lookupIns_in_range sample_registry 3 12 true 1 12 _
              Hspan ltac:(lia) eq_refl) as (_ & (y & Hy & Hdouble) & _).
  destruct (lookupIns_in_range sample_registry 3 12 true 1 3 _
              Hspan ltac:(lia) eq_refl) as (_ & (z & Hz & Hbyte) & _).
  simpl in Hx, Hy, Hz.
  injection Hx as <-. injection Hy as <-. injection Hz as <-.
  exact (conj Hfloat (conj Hdouble Hbyte)).
Defined.

(** ** Immediate operands *)

Lemma HasFullRangeImm_found
  (table : list HWIntrinsicInfo) (i : NamedIntrinsic) (r : HWIntrinsicInfo) :
  lookup table i = Ok r ->
  HasFullRangeImm table i = Ok (has_flag (flags r) HW_Flag_FullRangeIMM).
Proof.
  intros found. unfold HasFullRangeImm.
  apply (present_test _ _ _ found). single_bit_flag.
Qed.

(** C7: with the full-range flag set, every value from 0 to 255 is a legal
    immediate, and -1 and 256 are not. *)
Theorem isInImmRange_full_range
  (table : list HWIntrinsicInfo) (narrowImmBound : NamedIntrinsic -> Z)
  (i : NamedIntrinsic) (r : HWIntrinsicInfo) :
  lookup table i = Ok r ->
  has_flag (flags r) HW_Flag_FullRangeIMM = true ->
  (forall v, 0 <= v <= 255 ->
             isInImmRange table narrowImmBound i v = Ok true) /\
  isInImmRange table narrowImmBound i (-1) = Ok false /\
  isInImmRange table narrowImmBound i 256 = Ok false.
Proof.
  intros found Hfull.
  assert (Hbody : forall v, isInImmRange table narrowImmBound i v
                            = Ok ((0 <=? v) && (v <=? 255))).
  { intros v. unfold isInImmRange.
    rewrite (HasFullRangeImm_found _ _ _ found), Hfull. reflexivity. }
  split; [|split].
  - intros v [Hlo Hhi]. rewrite Hbody.
    apply Z.leb_le in Hlo, Hhi. rewrite Hlo, Hhi. reflexivity.
  - rewrite Hbody. reflexivity.
  - rewrite Hbody. reflexivity.
Qed.

Lemma isInImmRange_full_range_witness :
  isInImmRange sample_registry sample_narrowImmBound 2 0 = Ok true /\
  isInImmRange sample_registry sample_narrowImmBound 2 255 = Ok true /\
  isInImmRange sample_registry sample_narrowImmBound 2 (-1) = Ok false /\
  isInImmRange sample_registry sample_narrowImmBound 2 256 = Ok false.
Proof.
  destruct (isInImmRange_full_range sample_registry sample_narrowImmBound 2 _
              eq_refl eq_refl) as (Hin & Hbelow & Habove).
  split; [apply Hin; lia|]. split; [apply Hin; lia|].
  split; [exact Hbelow | exact Habove].
Defined.

(** ** SIMD width *)

Lemma HasFixedSimdSize_found
  (table : list HWIntrinsicInfo) (i : NamedIntrinsic) (r : HWIntrinsicInfo) :
  lookup table i = Ok r ->
  HasFixedSimdSize table i
  = Ok (negb (has_flag (flags r) HW_Flag_UnfixedSIMDSize)).
Proof.
  intros found. unfold HasFixedSimdSize.
  apply (absent_test _ _ _ found). single_bit_flag.
Qed.

(** C8: for a size-polymorphic identifier (unfixed-SIMD-size flag set) the
    width is the one of the signature's type argument, 256 for a 256-bit
    and 128 for a 128-bit argument, whatever the record's size field; for a
    fixed-size identifier it is the record's size field. *)
Theorem lookupSimdSize_sig_width
  (table : list HWIntrinsicInfo) (comp : Compiler) (i : NamedIntrinsic)
  (r : HWIntrinsicInfo) (sig : CORINFO_SIG_INFO) :
  lookup table i = Ok r ->
  (has_flag (flags r) HW_Flag_UnfixedSIMDSize = true ->
   lookupSimdSize_sig table comp i sig = Ok (simdTypeArgWidth (sigTypeArg sig)) /\
   (forall baseType, sigTypeArg sig = Vector256 baseType ->
                     lookupSimdSize_sig table comp i sig = Ok 256) /\
   (forall baseType, sigTypeArg sig = Vector128 baseType ->
                     lookupSimdSize_sig table comp i sig = Ok 128)) /\
  (has_flag (flags r) HW_Flag_UnfixedSIMDSize = false ->
   lookupSimdSize_sig table comp i sig = Ok (simdSize r) /\
   lookupSimdSize_sig table comp i sig = lookupSimdSize table i).
Proof.
  intros found. unfold lookupSimdSize_sig.
  rewrite (HasFixedSimdSize_found _ _ _ found).
  rewrite (lookupSimdSize_found _ _ _ found).
  split; intros Hflag; rewrite Hflag; simpl.
  - split; [reflexivity|].
    split; intros baseType ->; reflexivity.
  - split; reflexivity.
Qed.

Lemma lookupSimdSize_sig_width_witness :
  lookupSimdSize_sig sample_registry tt 3 (mk_CORINFO_SIG_INFO (Vector256 11))
    = Ok 256 /\
  lookupSimdSize_sig sample_registry tt 3 (mk_CORINFO_SIG_INFO (Vector128 12))
    = Ok 128 /\
  lookupSimdSize_sig sample_registry tt 1 (mk_CORINFO_SIG_INFO (Vector256 11))
    = Ok 16.
Proof.
  destruct (lookupSimdSize_sig_width sample_registry tt 3 _
              (mk_CORINFO_SIG_INFO (Vector256 11)) eq_refl) as (Hwide & _).
  destruct (lookupSimdSize_sig_width sample_registry tt 3 _
              (mk_CORINFO_SIG_INFO (Vector128 12)) eq_refl) as (Hnarrow & _).
  destruct (lookupSimdSize_sig_width sample_registry tt 1 _
              (mk_CORINFO_SIG_INFO (Vector256 11)) eq_refl) as (_ & Hfixed).
  destruct (Hwide eq_refl) as (_ & H256 & _).
  destruct (Hnarrow eq_refl) as (_ & _ & H128).
  destruct (Hfixed eq_refl) as (Hsize & _).
  split; [apply (H256 11); reflexivity|].
  split; [apply (H128 12); reflexivity | exact Hsize].
Defined.

(** ** Comparison predicates under swapped operands *)

Lemma cmp_of_code_code (c : FloatComparison) :
  cmp_of_code (cmp_code c) = Some c.
Proof. destruct c; reflexivity. Qed.

Lemma cmp_code_range (c : FloatComparison) : 0x00 <= cmp_code c <= 0x1F.
Proof. destruct c; simpl; lia. Qed.

Lemma cmp_of_code_sound (p : Z) (c : FloatComparison) :
  cmp_of_code p = Some c -> cmp_code c = p.
Proof.
  unfold cmp_of_code. intros Hfind.
  apply find_some in Hfind as [_ Heq]. apply Z.eqb_eq. exact Heq.
Qed.

(** Every one of the 32 codes is the value of a macro of the table. *)
Lemma cmp_of_code_total (p : Z) :
  0x00 <= p <= 0x1F -> exists c, cmp_of_code p = Some c.
Proof.
  intros Hp.
  assert (Hn : exists n : nat, (n < 32)%nat /\ p = Z.of_nat n)
    by (exists (Z.to_nat p); lia).
  destruct Hn as (n & Hn & ->).
  do 32 (destruct n as [|n]; [eexists; reflexivity|]).
  lia.
Qed.

Lemma swapped_comparison_involutive (c : FloatComparison) :
  swapped_comparison (swapped_comparison c) = c.
Proof. destruct c; reflexivity. Qed.

(** The swapped predicate says of the swapped operands what the predicate
    says of the operands as given, and signals alike. *)
Lemma swapped_comparison_preserves (c : FloatComparison) (o : Outcome) :
  cmp_holds (swapped_comparison c) (swap_operands o) = cmp_holds c o /\
  signaling (cmp_meaning (swapped_comparison c)) = signaling (cmp_meaning c).
Proof. destruct c, o; split; reflexivity. Qed.

Lemma swapped_comparison_fixes (c : FloatComparison) :
  order_dependent c = false <-> swapped_comparison c = c.
Proof. destruct c; split; intros H; solve [reflexivity | discriminate H]. Qed.

Lemma lookupFloatingComparisonForSwappedArgs_code (c : FloatComparison) :
  lookupFloatingComparisonForSwappedArgs (cmp_code c)
  = Ok (cmp_code (swapped_comparison c)).
Proof.
  unfold lookupFloatingComparisonForSwappedArgs.
  rewrite cmp_of_code_code. reflexivity.
Qed.

(** C3: on each of the 32 predicate codes 0x00 to 0x1F the swap returns a
    code of the same domain, applying it to that result gives the original
    code back, and a predicate whose value does not depend on the order of
    its operands is mapped to itself. *)
Theorem lookupFloatingComparisonForSwappedArgs_involutive (p : Z) :
  0x00 <= p <= 0x1F ->
  (exists q,
     lookupFloatingComparisonForSwappedArgs p = Ok q /\
     0x00 <= q <= 0x1F /\
     lookupFloatingComparisonForSwappedArgs q = Ok p) /\
  (p' <- lookupFloatingComparisonForSwappedArgs p ;;
   lookupFloatingComparisonForSwappedArgs p') = Ok p /\
  (forall c, cmp_of_code p = Some c ->
             order_dependent c = false ->
             lookupFloatingComparisonForSwappedArgs p = Ok p).
Proof.
  intros Hp. destruct (cmp_of_code_total p Hp) as (c & Hc).
  pose proof (cmp_of_code_sound p c Hc) as <-.
  assert (Hback :
    lookupFloatingComparisonForSwappedArgs (cmp_code (swapped_comparison c))
    = Ok (cmp_code c)).
  { rewrite lookupFloatingComparisonForSwappedArgs_code,
      swapped_comparison_involutive. reflexivity. }
  split; [|split].
  - exists (cmp_code (swapped_comparison c)).
    split; [apply lookupFloatingComparisonForSwappedArgs_code|].
    split; [apply cmp_code_range | exact Hback].
  - rewrite lookupFloatingComparisonForSwappedArgs_code. simpl. exact Hback.
  - intros c' Hc' Hsym. rewrite Hc in Hc'. injection Hc' as <-.
    rewrite lookupFloatingComparisonForSwappedArgs_code.
    apply swapped_comparison_fixes in Hsym. rewrite Hsym. reflexivity.
Qed.

Lemma lookupFloatingComparisonForSwappedArgs_involutive_witness :
  (p' <- lookupFloatingComparisonForSwappedArgs 0x01 ;;
   lookupFloatingComparisonForSwappedArgs p') = Ok 0x01 /\
  lookupFloatingComparisonForSwappedArgs 0x03 = Ok 0x03.
Proof.
  assert (Hlt : 0x00 <= 0x01 <= 0x1F) by lia.
  assert (Hunord : 0x00 <= 0x03 <= 0x1F) by lia.
  destruct (lookupFloatingComparisonForSwappedArgs_involutive 0x01 Hlt)
    as (_ & Htwice & _).
  destruct (lookupFloatingComparisonForSwappedArgs_involutive 0x03 Hunord)
    as (_ & _ & Hfixed).
  exact (conj Htwice (Hfixed _CMP_UNORD_Q eq_refl eq_refl)).
Defined.

(** * Further properties of the header *)

(** ** Every flag predicate reads exactly its own bit *)

Ltac catalogue_cases H :=
  simpl in H;
  repeat (destruct H as [H|H]; [injection H as <- <- <-|]);
  [..|contradiction H].

Lemma flag_predicates_sound
  (target : Target) (table : list HWIntrinsicInfo) (i : NamedIntrinsic)
  (r : HWIntrinsicInfo)
  (flag : HWIntrinsicFlag) (pol : Polarity) (P : FlagPredicate) :
  In (flag, pol, P) (flag_predicates target) ->
  lookup table i = Ok r ->
  P table i = Ok (read_with pol (has_flag (flags r) flag)).
Proof.
  intros Hin found. destruct target; catalogue_cases Hin;
    solve [ apply (present_test _ _ _ found); single_bit_flag
          | apply (absent_test _ _ _ found); single_bit_flag ].
Qed.

(** X1: each flag lookup of the header answers from one bit of the record's
    flag word: a predicate testing [!= 0] returns whether its flag is
    present, one testing [== 0] whether it is absent. *)
Theorem flag_predicate_reads_its_bit
  (target : Target) (table : list HWIntrinsicInfo) (i : NamedIntrinsic)
  (r : HWIntrinsicInfo)
  (flag : HWIntrinsicFlag) (pol : Polarity) (P : FlagPredicate) :
  In (flag, pol, P) (flag_predicates target) ->
  lookup table i = Ok r ->
  P table i = Ok (read_with pol (has_flag (flags r) flag)).
Proof.
  intros Hin found. destruct target; catalogue_cases Hin;
    first [ apply (present_test _ _ _ found)
          | apply (absent_test _ _ _ found) ];
    single_bit_flag.
Qed.

Lemma flag_predicate_reads_its_bit_witness :
  MaybeMemoryLoad sample_registry 5 = Ok false /\
  SupportsContainment sample_registry 5 = Ok false /\
  HasRMWSemantics sample_registry TARGET_XARCH 5 = Ok false.
Proof.
  pose proof (flag_predicate_reads_its_bit TARGET_XARCH sample_registry 5 _
                HW_Flag_MaybeMemoryLoad TestsPresent MaybeMemoryLoad
                ltac:(simpl; tauto) eq_refl) as Hload.
  pose proof (flag_predicate_reads_its_bit TARGET_XARCH sample_registry 5 _
                HW_Flag_NoContainment TestsAbsent SupportsContainment
                ltac:(simpl; tauto) eq_refl) as Hcontain.
  pose proof (flag_predicate_reads_its_bit TARGET_XARCH sample_registry 5 _
                HW_Flag_NoRMWSemantics TestsAbsent
                (fun table => HasRMWSemantics table TARGET_XARCH)
                ltac:(simpl; tauto) eq_refl) as Hrmw.
  exact (conj Hload (conj Hcontain Hrmw)).
Defined.

(** ** Flags are independent of each other *)

Lemma entry_flag_listed
  (target : Target) (flag : HWIntrinsicFlag) (pol : Polarity)
  (P : FlagPredicate) :
  In (flag, pol, P) (flag_predicates target) -> In flag (target_flags target).
Proof.
  intros Hin. unfold target_flags.
  exact (in_map (fun entry => fst (fst entry)) _ _ Hin).
Qed.

Ltac flag_cases H :=
  simpl in H; repeat (destruct H as [<-|H]); [..|contradiction H].

(** Two flags of the enumeration share a bit only when they are the same
    flag. *)
Lemma has_flag_between_flags (target : Target) (a b : HWIntrinsicFlag) :
  In a (target_flags target) -> In b (target_flags target) ->
  has_flag a b = (b =? a).
Proof.
  intros Ha Hb. destruct target; flag_cases Ha; flag_cases Hb; reflexivity.
Qed.

Lemma has_flag_lxor (f g flag : HWIntrinsicFlag) :
  has_flag (Z.lxor f g) flag = xorb (has_flag f flag) (has_flag g flag).
Proof. unfold has_flag. apply Z.lxor_spec. Qed.

Lemma has_flag_lor (f g flag : HWIntrinsicFlag) :
  has_flag (Z.lor f g) flag = has_flag f flag || has_flag g flag.
Proof. unfold has_flag. apply Z.lor_spec. Qed.

(** X2: two records whose flag words differ in exactly the bit of one flag
    get the same answer from the predicate of every other flag, and opposite
    answers from the predicate of that flag. *)
Theorem flag_predicates_independent
  (target : Target) (t1 t2 : list HWIntrinsicInfo) (i1 i2 : NamedIntrinsic)
  (r1 r2 : HWIntrinsicInfo)
  (a b : HWIntrinsicFlag) (pa pb : Polarity) (Pa Pb : FlagPredicate) :
  In (a, pa, Pa) (flag_predicates target) ->
  In (b, pb, Pb) (flag_predicates target) ->
  lookup t1 i1 = Ok r1 ->
  lookup t2 i2 = Ok r2 ->
  Z.lxor (flags r1) (flags r2) = b ->
  (a <> b -> Pa t2 i2 = Pa t1 i1) /\
  (exists answer, Pb t1 i1 = Ok answer /\ Pb t2 i2 = Ok (negb answer)).
Proof.
  intros Ha Hb found1 found2 Hdiff.
  assert (Hflags2 : flags r2 = Z.lxor (flags r1) b).
  { rewrite <- Hdiff, <- Z.lxor_assoc, Z.lxor_nilpotent, Z.lxor_0_l.
    reflexivity. }
  pose proof (entry_flag_listed _ _ _ _ Ha) as Hla.
  pose proof (entry_flag_listed _ _ _ _ Hb) as Hlb.
  split.
  - intros Hne.
    rewrite (flag_predicates_sound _ _ _ _ _ _ _ Ha found1).
    rewrite (flag_predicates_sound _ _ _ _ _ _ _ Ha found2).
    rewrite Hflags2, has_flag_lxor.
    rewrite (has_flag_between_flags target b a Hlb Hla).
    replace (a =? b) with false by (symmetry; apply Z.eqb_neq; exact Hne).
    rewrite xorb_false_r. reflexivity.
  - exists (read_with pb (has_flag (flags r1) b)).
    split; [exact (flag_predicates_sound _ _ _ _ _ _ _ Hb found1)|].
    rewrite (flag_predicates_sound _ _ _ _ _ _ _ Hb found2).
    rewrite Hflags2, has_flag_lxor.
    rewrite (has_flag_between_flags target b b Hlb Hlb), Z.eqb_refl.
    destruct pb, (has_flag (flags r1) b); reflexivity.
Qed.

Lemma flag_predicates_independent_witness :
  (HW_Flag_Commutative <> HW_Flag_UnfixedSIMDSize ->
   IsCommutative sample_registry 3 = IsCommutative sample_registry 4) /\
  (exists answer,
     HasFixedSimdSize sample_registry 4 = Ok answer /\
     HasFixedSimdSize sample_registry 3 = Ok (negb answer)).
Proof.
  exact (flag_predicates_independent TARGET_XARCH
           sample_registry sample_registry 4 3 _ _
           HW_Flag_Commutative HW_Flag_UnfixedSIMDSize
           TestsPresent TestsAbsent IsCommutative HasFixedSimdSize
           ltac:(simpl; tauto) ltac:(simpl; tauto) eq_refl eq_refl eq_refl).
Defined.

(** ** Flag words written with [|] *)

Lemma lor_below (n x y : Z) :
  0 <= n -> 0 <= x < 2 ^ n -> 0 <= y < 2 ^ n -> 0 <= Z.lor x y < 2 ^ n.
Proof.
  intros Hn Hx Hy.
  assert (Hpow : 0 < 2 ^ n) by (apply Z.pow_pos_nonneg; lia).
  assert (Hnonneg : 0 <= Z.lor x y) by (apply Z.lor_nonneg; lia).
  split; [exact Hnonneg|].
  assert (Hhigh : Z.lor x y / 2 ^ n = 0).
  { rewrite <- Z.shiftr_div_pow2, Z.shiftr_lor, !Z.shiftr_div_pow2 by exact Hn.
    rewrite (Z.div_small x), (Z.div_small y) by assumption. reflexivity. }
  apply Z.div_small_iff in Hhigh; lia.
Qed.

Lemma flag_word_below (target : Target) (fs : list HWIntrinsicFlag) :
  Forall (fun f => In f (target_flags target)) fs ->
  0 <= flag_word fs < 2 ^ 18.
Proof.
  induction 1 as [|f fs Hf _ IH].
  - vm_compute. split; [discriminate | reflexivity].
  - change (flag_word (f :: fs)) with (Z.lor f (flag_word fs)).
    apply lor_below; [lia| |exact IH].
    destruct target; flag_cases Hf; vm_compute;
      (split; [discriminate | reflexivity]).
Qed.

Lemma has_flag_flag_word
  (target : Target) (fs : list HWIntrinsicFlag) (flag : HWIntrinsicFlag) :
  Forall (fun f => In f (target_flags target)) fs ->
  In flag (target_flags target) ->
  has_flag (flag_word fs) flag = flag_listed flag fs.
Proof.
  intros Hfs Hflag. induction Hfs as [|f fs Hf _ IH].
  - apply has_flag_NoFlag.
  - change (flag_word (f :: fs)) with (Z.lor f (flag_word fs)).
    change (flag_listed flag (f :: fs))
      with ((flag =? f) || flag_listed flag fs).
    rewrite has_flag_lor, IH.
    rewrite (has_flag_between_flags target f flag Hf Hflag). reflexivity.
Qed.

(** X3: a flag word written as the flags of a list joined with [|] stays
    within 18 bits, and every predicate answers on it according to whether
    its own flag is in the list. *)
Theorem flag_word_round_trip
  (target : Target) (table : list HWIntrinsicInfo) (i : NamedIntrinsic)
  (r : HWIntrinsicInfo) (fs : list HWIntrinsicFlag)
  (flag : HWIntrinsicFlag) (pol : Polarity) (P : FlagPredicate) :
  Forall (fun f => In f (target_flags target)) fs ->
  In (flag, pol, P) (flag_predicates target) ->
  lookup table i = Ok r ->
  flags r = flag_word fs ->
  0 <= flags r < 2 ^ 18 /\
  P table i = Ok (read_with pol (flag_listed flag fs)).
Proof.
  intros Hfs Hin found Hword. split.
  - rewrite Hword. exact (flag_word_below target fs Hfs).
  - rewrite (flag_predicates_sound _ _ _ _ _ _ _ Hin found), Hword.
    rewrite (has_flag_flag_word target fs flag Hfs
               (entry_flag_listed _ _ _ _ Hin)).
    reflexivity.
Qed.

Lemma flag_word_round_trip_witness :
  0 <= Z.lor HW_Flag_NoContainment HW_Flag_NoRMWSemantics < 2 ^ 18 /\
  SupportsContainment sample_registry 5 = Ok false.
Proof.
  assert (Hfs : Forall (fun f => In f (target_flags TARGET_XARCH))
                  [HW_Flag_NoContainment; HW_Flag_NoRMWSemantics]).
  { repeat constructor; simpl; tauto. }
  exact (flag_word_round_trip TARGET_XARCH sample_registry 5 _
           [HW_Flag_NoContainment; HW_Flag_NoRMWSemantics]
           HW_Flag_NoContainment TestsAbsent SupportsContainment
           Hfs ltac:(simpl; tauto) eq_refl eq_refl).
Defined.

(** ** Every slot of the instruction array is reached *)

(** X6: when the range from [TYP_BYTE] to [TYP_DOUBLE] counts ten element
    types, each of the ten slots of a record's [ins] array is what
    [lookupIns] returns for the element type at that offset from
    [TYP_BYTE], and that type is inside the range: no slot is out of reach
    and no two types share one. *)
Theorem lookupIns_reaches_every_slot
  (table : list HWIntrinsicInfo) (TYP_BYTE TYP_DOUBLE : var_types)
  (DEBUG : bool) (i : NamedIntrinsic) (r : HWIntrinsicInfo)
  (k : nat) (insn : instruction) :
  TYP_DOUBLE - TYP_BYTE = 9 ->
  lookup table i = Ok r ->
  nth_error (slots (ins r)) k = Some insn ->
  TYP_BYTE <= TYP_BYTE + Z.of_nat k <= TYP_DOUBLE /\
  lookupIns table TYP_BYTE TYP_DOUBLE DEBUG i (TYP_BYTE + Z.of_nat k) = Ok insn /\
  (forall t, TYP_BYTE <= t <= TYP_DOUBLE ->
             Z.to_nat (t - TYP_BYTE) = k -> t = TYP_BYTE + Z.of_nat k).
Proof.
  intros Hspan found Hslot.
  assert (Hk : (k < 10)%nat).
  { rewrite <- (slots_length (ins r)). apply nth_error_Some.
    rewrite Hslot. discriminate. }
  split; [lia|]. split.
  - unfold lookupIns.
    replace (TYP_BYTE + Z.of_nat k <? TYP_BYTE) with false
      by (symmetry; apply Z.ltb_ge; lia).
    replace (TYP_BYTE + Z.of_nat k >? TYP_DOUBLE) with false
      by (symmetry; rewrite Z.gtb_ltb; apply Z.ltb_ge; lia).
    simpl. rewrite found. simpl. unfold array_get.
    replace (TYP_BYTE + Z.of_nat k - TYP_BYTE) with (Z.of_nat k) by lia.
    replace (Z.of_nat k <? 0) with false by (symmetry; apply Z.ltb_ge; lia).
    rewrite Nat2Z.id, Hslot. reflexivity.
  - intros t Ht Hidx. lia.
Qed.

Lemma lookupIns_reaches_every_slot_witness :
  3 <= 3 + Z.of_nat 9 <= 12 /\
  lookupIns sample_registry 3 12 true 2 (3 + Z.of_nat 9) = Ok (INS_opcode 22) /\
  (forall t, 3 <= t <= 12 -> Z.to_nat (t - 3) = 9%nat -> t = 3 + Z.of_nat 9).
Proof.
  exact (lookupIns_reaches_every_slot sample_registry 3 12 true 2 _ 9
           (INS_opcode 22) eq_refl eq_refl eq_refl).
Defined.

(** ** The layout of the comparison predicate codes *)

Lemma code_is_small_nat (p : Z) :
  0x00 <= p <= 0x1F -> exists n : nat, (n < 32)%nat /\ p = Z.of_nat n.
Proof. intros Hp. exists (Z.to_nat p). lia. Qed.

Ltac each_nat_below n tac :=
  destruct n as [|n];
  [ tac | first [ exfalso; lia | each_nat_below n tac ] ].

Ltac each_code p Hp tac :=
  let n := fresh "n" in
  let Hn := fresh "Hn" in
  destruct (code_is_small_nat p Hp) as (n & Hn & ->);
  each_nat_below n tac.

(** X7: the 32 macros of the table have pairwise distinct values, and their
    values are exactly the codes 0x00 to 0x1F. *)
Theorem cmp_codes_distinct_and_cover :
  (forall c1 c2, cmp_code c1 = cmp_code c2 -> c1 = c2) /\
  (forall p, 0x00 <= p <= 0x1F <-> exists c, cmp_code c = p) /\
  (forall p c, cmp_of_code p = Some c <-> cmp_code c = p).
Proof.
  split; [|split].
  - intros c1 c2 Heq.
    pose proof (cmp_of_code_code c1) as H1. rewrite Heq, cmp_of_code_code in H1.
    injection H1 as ->. reflexivity.
  - intros p. split.
    + intros Hp. destruct (cmp_of_code_total p Hp) as (c & Hc).
      exists c. exact (cmp_of_code_sound p c Hc).
    + intros (c & <-). apply cmp_code_range.
  - intros p c. split; [apply cmp_of_code_sound|].
    intros <-. apply cmp_of_code_code.
Qed.

(** X8: bit 0x10 of a predicate code selects the other signaling behaviour
    and nothing else: the code with that bit flipped is in the table, holds
    of the same operands, and signals exactly when the original does not. *)
Theorem cmp_bit4_toggles_signaling (p : Z) :
  0x00 <= p <= 0x1F ->
  exists c c',
    cmp_of_code p = Some c /\
    cmp_of_code (Z.lxor p 0x10) = Some c' /\
    (forall o, cmp_holds c' o = cmp_holds c o) /\
    signaling (cmp_meaning c') = negb (signaling (cmp_meaning c)).
Proof.
  intros Hp.
  each_code p Hp
    ltac:(eexists; eexists; split; [reflexivity|]; split; [reflexivity|];
          split; [intros o; destruct o; reflexivity | reflexivity]).
Qed.

Lemma cmp_bit4_toggles_signaling_witness :
  exists c c',
    cmp_of_code 0x01 = Some c /\
    cmp_of_code (Z.lxor 0x01 0x10) = Some c' /\
    (forall o, cmp_holds c' o = cmp_holds c o) /\
    signaling (cmp_meaning c') = negb (signaling (cmp_meaning c)).
Proof. apply (cmp_bit4_toggles_signaling 0x01). lia. Defined.

(** X9: bit 0x04 of a predicate code negates the predicate: the code with
    that bit flipped is in the table, holds of exactly the operands the
    original does not hold of (unordered operands included), and signals
    alike. *)
Theorem cmp_bit2_negates (p : Z) :
  0x00 <= p <= 0x1F ->
  exists c c',
    cmp_of_code p = Some c /\
    cmp_of_code (Z.lxor p 0x04) = Some c' /\
    (forall o, cmp_holds c' o = negb (cmp_holds c o)) /\
    signaling (cmp_meaning c') = signaling (cmp_meaning c).
Proof.
  intros Hp.
  each_code p Hp
    ltac:(eexists; eexists; split; [reflexivity|]; split; [reflexivity|];
          split; [intros o; destruct o; reflexivity | reflexivity]).
Qed.

Lemma cmp_bit2_negates_witness :
  exists c c',
    cmp_of_code 0x0D = Some c /\
    cmp_of_code (Z.lxor 0x0D 0x04) = Some c' /\
    (forall o, cmp_holds c' o = negb (cmp_holds c o)) /\
    signaling (cmp_meaning c') = signaling (cmp_meaning c).
Proof. apply (cmp_bit2_negates 0x0D). lia. Defined.

(** X10: bit 0x08 of a predicate code decides the value on unordered
    operands only: the code with that bit flipped is in the table, holds of
    the same ordered operands, takes the opposite value when an operand is a
    NaN, and signals alike. *)
Theorem cmp_bit3_flips_unordered (p : Z) :
  0x00 <= p <= 0x1F ->
  exists c c',
    cmp_of_code p = Some c /\
    cmp_of_code (Z.lxor p 0x08) = Some c' /\
    (forall o, o <> Unordered -> cmp_holds c' o = cmp_holds c o) /\
    cmp_holds c' Unordered = negb (cmp_holds c Unordered) /\
    signaling (cmp_meaning c') = signaling (cmp_meaning c).
Proof.
  intros Hp.
  each_code p Hp
    ltac:(eexists; eexists; split; [reflexivity|]; split; [reflexivity|];
          split; [ intros o Ho; destruct o;
                   solve [reflexivity | contradiction Ho; reflexivity]
                 | split; reflexivity ]).
Qed.

Lemma cmp_bit3_flips_unordered_witness :
  exists c c',
    cmp_of_code 0x02 = Some c /\
    cmp_of_code (Z.lxor 0x02 0x08) = Some c' /\
    (forall o, o <> Unordered -> cmp_holds c' o = cmp_holds c o) /\
    cmp_holds c' Unordered = negb (cmp_holds c Unordered) /\
    signaling (cmp_meaning c') = signaling (cmp_meaning c).
Proof. apply (cmp_bit3_flips_unordered 0x02). lia. Defined.
